(** * FeatureDetection: the condensation [Sample], the grayscale filter and the
      probabilistic SVM output, embedded and verified.

    Sources embedded here:
    - libCondensation/include/condensation/Sample.hpp
    - libImageProcessing/src/imageprocessing/GrayscaleFilter.cpp
    - libClassification/include/classification/ProbabilisticSvmClassifier.hpp
      (declarations and documentation only)

    C++ [int] is a 32-bit two's-complement integer carried in [Z]; C++ [double]
    is IEEE 754 binary64, carried by Rocq's primitive floats; the static members
    of [Sample] are an explicit record threaded through the constructors. *)

From Stdlib Require Import ZArith Bool List Lia Reals Lra Floats.
Import ListNotations.

Local Open Scope Z_scope.

(* ================================================================= *)
(** * Part I: definitions *)
(* ================================================================= *)

(** ** C++ [int] *)

Module Int32.

Definition INT_MIN : Z := -2147483648.
Definition INT_MAX : Z := 2147483647.

Definition in_range (z : Z) : Prop := INT_MIN <= z <= INT_MAX.

(** Two's-complement reduction of a mathematical integer to 32 bits. *)
Definition wrap (z : Z) : Z := (z + 2147483648) mod 4294967296 - 2147483648.

Definition add (a b : Z) : Z := wrap (a + b).
Definition sub (a b : Z) : Z := wrap (a - b).

(** [a / b] on [int] truncates toward zero. *)
Definition div (a b : Z) : Z := wrap (Z.quot a b).

(** [i++]: the value of the expression is the old [i]; the variable becomes
    [i + 1]. *)
Definition post_incr (i : Z) : Z * Z := (i, add i 1).

End Int32.

(** ** C++ [double] (and [float], whose values are a subset of it) *)

Module Double.

Definition double : Type := PrimFloat.float.

(** [static_cast<double>(i)] for an [int] [i]: exact, since [|i| <= 2^31]. *)
Definition of_int (i : Z) : double :=
  match i with
  | Z0 => PrimFloat.zero
  | Zpos _ => PrimFloat.of_uint63 (Uint63.of_Z i)
  | Zneg p => PrimFloat.opp (PrimFloat.of_uint63 (Uint63.of_Z (Zpos p)))
  end.

(** The four ordering operators of C++ on [double].  [<] and [<=] are the
    primitive comparisons; [>] and [>=] are read off the four-way IEEE
    comparison, so that all of them are false on an unordered pair. *)
Definition lt (a b : double) : bool := PrimFloat.ltb a b.
Definition le (a b : double) : bool := PrimFloat.leb a b.
Definition gt (a b : double) : bool :=
  match PrimFloat.compare a b with FGt => true | _ => false end.
Definition ge (a b : double) : bool :=
  match PrimFloat.compare a b with FGt | FEq => true | _ => false end.
Definition eq (a b : double) : bool := PrimFloat.eqb a b.

(** The conversion of a [double] to C++ [float] (IEEE 754 binary32: 24 bits of
    precision, exponents below 128), rounding to nearest, ties to even, with
    overflow to infinity and underflow through the subnormals to a signed
    zero.  The result is carried as the [double] of the same value; zeros,
    infinities and NaN convert to themselves. *)
Definition to_float (v : double) : double :=
  match Prim2SF v with
  | S754_finite s m e => SF2Prim (binary_round 24 128 s m e)
  | _ => v
  end.

(** Round-half-to-even of [m * 2^e] for [m >= 0]. *)
Definition round_half_even (m e : Z) : Z :=
  if 0 <=? e then m * 2 ^ e
  else
    let d := 2 ^ (- e) in
    let q := m / d in
    let r := m mod d in
    match (2 * r ?= d) with
    | Lt => q
    | Gt => q + 1
    | Eq => if Z.even q then q else q + 1
    end.

(** One concrete rounding function of the shape OpenCV's [cvRound] has on
    x86-64 (cvtsd2si): nearest integer, ties to even, and the "integer
    indefinite" value [INT_MIN] for NaN, infinities and values outside
    [int].  It instantiates the [cvRound] parameter of the development in
    examples; no theorem about [Sample] depends on this choice. *)
Definition cvRound_rne (v : double) : Z :=
  match Prim2SF v with
  | S754_zero _ => 0
  | S754_finite s m e =>
      let n := round_half_even (Zpos m) e in
      let z := if s then - n else n in
      if (Int32.INT_MIN <=? z) && (z <=? Int32.INT_MAX) then z
      else Int32.INT_MIN
  | _ => Int32.INT_MIN
  end.

End Double.

(** ** condensation::Sample *)

Module condensation.

Import Double.

(** The data members of [Sample] (Sample.hpp, private section). *)
Record Sample : Type := mkSample {
  x : Z;            (* int x *)
  y : Z;            (* int y *)
  size : Z;         (* int size *)
  vx : Z;           (* int vx *)
  vy : Z;           (* int vy *)
  vsize : double;   (* float vsize *)
  weight : double;  (* double weight *)
  object : bool;    (* bool object *)
  clusterId : Z     (* int clusterId *)
}.

(** The static members of [Sample]: one value of each per process. *)
Record Statics : Type := mkStatics {
  aspectRatio : double;   (* static double aspectRatio *)
  nextClusterId : Z       (* static int nextClusterId *)
}.

(** cv::Rect: [(x, y, width, height)]. *)
Record Rect : Type := mkRect {
  rect_x : Z;
  rect_y : Z;
  rect_width : Z;
  rect_height : Z
}.

(** Code that may read and write the statics. *)
Definition M (A : Type) : Type := Statics -> A * Statics.

(** [nextClusterId++] as an effect on the statics. *)
Definition take_clusterId : M Z := fun st =>
  let '(old, new) := Int32.post_incr (nextClusterId st) in
  (old, mkStatics (aspectRatio st) new).

(** [Sample()] *)
Definition Sample_default : M Sample := fun st =>
  let '(id, st') := take_clusterId st in
  (mkSample 0 0 0 0 0 1%float 1%float false id, st').

(** [Sample(int x, int y, int size)] *)
Definition Sample_xys (x0 y0 size0 : Z) : M Sample := fun st =>
  let '(id, st') := take_clusterId st in
  (mkSample x0 y0 size0 0 0 1%float 1%float false id, st').

(** [Sample(int x, int y, int size, int vx, int vy, float vsize)].  The last
    parameter is a [float]: [vsize0] is the value of the argument expression,
    which the call converts to [float] before the member is initialised. *)
Definition Sample_full (x0 y0 size0 vx0 vy0 : Z) (vsize0 : double) : M Sample :=
  fun st =>
    let '(id, st') := take_clusterId st in
    (mkSample x0 y0 size0 vx0 vy0 (to_float vsize0) 1%float false id, st').

(** The implicitly defined copy constructor [Sample(const Sample&)]: the class
    declares none, so the copy is member-wise and runs no [nextClusterId++]. *)
Definition Sample_copy (other : Sample) : M Sample := fun st => (other, st).

(** Accessors. *)
Definition getX (s : Sample) : Z := x s.
Definition getY (s : Sample) : Z := y s.
Definition getSize (s : Sample) : Z := size s.
Definition getWidth (s : Sample) : Z := size s.
Definition getVx (s : Sample) : Z := vx s.
Definition getVy (s : Sample) : Z := vy s.
Definition getVSize (s : Sample) : double := vsize s.
Definition getWeight (s : Sample) : double := weight s.
Definition isObject (s : Sample) : bool := object s.
Definition getClusterId (s : Sample) : Z := clusterId s.

(** Mutators: each assigns exactly one member. *)
Definition setX (v : Z) (s : Sample) : Sample :=
  mkSample v (y s) (size s) (vx s) (vy s) (vsize s) (weight s) (object s) (clusterId s).
Definition setY (v : Z) (s : Sample) : Sample :=
  mkSample (x s) v (size s) (vx s) (vy s) (vsize s) (weight s) (object s) (clusterId s).
Definition setSize (v : Z) (s : Sample) : Sample :=
  mkSample (x s) (y s) v (vx s) (vy s) (vsize s) (weight s) (object s) (clusterId s).
Definition setVx (v : Z) (s : Sample) : Sample :=
  mkSample (x s) (y s) (size s) v (vy s) (vsize s) (weight s) (object s) (clusterId s).
Definition setVy (v : Z) (s : Sample) : Sample :=
  mkSample (x s) (y s) (size s) (vx s) v (vsize s) (weight s) (object s) (clusterId s).
(** [void setVSize(float vsize)]: the parameter is a [float], so the value [v]
    of the argument expression is converted to [float] by the call. *)
Definition setVSize (v : double) (s : Sample) : Sample :=
  mkSample (x s) (y s) (size s) (vx s) (vy s) (to_float v) (weight s) (object s)
    (clusterId s).
Definition setWeight (v : double) (s : Sample) : Sample :=
  mkSample (x s) (y s) (size s) (vx s) (vy s) (vsize s) v (object s) (clusterId s).
Definition setObject (v : bool) (s : Sample) : Sample :=
  mkSample (x s) (y s) (size s) (vx s) (vy s) (vsize s) (weight s) v (clusterId s).

(** [operator<], [operator>] and the two comparator classes. *)
Definition operator_lt (this other : Sample) : bool :=
  Double.lt (weight this) (weight other).
Definition operator_gt (this other : Sample) : bool :=
  Double.gt (weight this) (weight other).
Definition WeightComparisonAsc (lhs rhs : Sample) : bool :=
  Double.lt (weight lhs) (weight rhs).
Definition WeightComparisonDesc (lhs rhs : Sample) : bool :=
  Double.gt (weight lhs) (weight rhs).

(** [static void setAspectRatio(double)] *)
Definition setAspectRatio (r : double) (st : Statics) : Statics :=
  mkStatics r (nextClusterId st).

(** [static void setAspectRatio(int width, int height)] *)
Definition setAspectRatio_wh (width height : Z) (st : Statics) : Statics :=
  setAspectRatio (PrimFloat.div (of_int height) (of_int width)) st.

Section Bounds.

(** OpenCV's [cvRound : double -> int] is not part of this repository; the
    bounds computation is given for an arbitrary rounding function. *)
Variable cvRound : double -> Z.

(** [int getHeight() const]; [size] is converted to [double] by the
    multiplication. *)
Definition getHeight (st : Statics) (s : Sample) : Z :=
  cvRound (PrimFloat.mul (aspectRatio st) (of_int (size s))).

(** [Rect getBounds() const] *)
Definition getBounds (st : Statics) (s : Sample) : Rect :=
  mkRect (Int32.sub (x s) (Int32.div (getWidth s) 2))
         (Int32.sub (y s) (Int32.div (getHeight st s) 2))
         (getWidth s)
         (getHeight st s).

End Bounds.

(** A call of a [const] member function on an object [s] under statics [st]:
    it yields a result and leaves both as they are. *)
Definition call_const {A : Type} (f : Statics -> Sample -> A)
  (st : Statics) (s : Sample) : A * Sample * Statics :=
  (f st s, s, st).

(** *** The public interface as data

    Clients can reach a [Sample] only through its constructors, its
    non-[const] member functions, copying, and the static setters. *)

Inductive ctor : Type :=
| Ctor_default
| Ctor_xys (x0 y0 size0 : Z)
| Ctor_full (x0 y0 size0 vx0 vy0 : Z) (vsize0 : double).

Definition construct (c : ctor) : M Sample :=
  match c with
  | Ctor_default => Sample_default
  | Ctor_xys x0 y0 size0 => Sample_xys x0 y0 size0
  | Ctor_full x0 y0 size0 vx0 vy0 vsize0 => Sample_full x0 y0 size0 vx0 vy0 vsize0
  end.

Inductive mutator : Type :=
| SetX (v : Z)
| SetY (v : Z)
| SetSize (v : Z)
| SetVx (v : Z)
| SetVy (v : Z)
| SetVSize (v : double)
| SetWeight (v : double)
| SetObject (v : bool).

Definition mutate (m : mutator) (s : Sample) : Sample :=
  match m with
  | SetX v => setX v s
  | SetY v => setY v s
  | SetSize v => setSize v s
  | SetVx v => setVx v s
  | SetVy v => setVy v s
  | SetVSize v => setVSize v s
  | SetWeight v => setWeight v s
  | SetObject v => setObject v s
  end.

(** A client program: straight-line statements over a store of [Sample]
    objects, addressed by position.  A statement naming an object that does
    not exist is not a program and leaves the state alone. *)
Inductive stmt : Type :=
| New (c : ctor)                    (* Sample s(...);           *)
| CopyNew (i : nat)                 (* Sample t(s_i);           *)
| Assign (i j : nat)                (* s_i = s_j;               *)
| Call (i : nat) (m : mutator)      (* s_i.setX(v); ...         *)
| SetAspectRatio (r : double)       (* Sample::setAspectRatio(r)    *)
| SetAspectRatioWH (w h : Z).       (* Sample::setAspectRatio(w, h) *)

Definition store : Type := list Sample.

Fixpoint update (i : nat) (s : Sample) (h : store) : store :=
  match h, i with
  | [], _ => []
  | _ :: t, O => s :: t
  | a :: t, S i' => a :: update i' s t
  end.

Definition exec (c : stmt) (cfg : Statics * store) : Statics * store :=
  let '(st, h) := cfg in
  match c with
  | New k => let '(s, st') := construct k st in (st', h ++ [s])
  | CopyNew i =>
      match nth_error h i with
      | Some o => let '(s, st') := Sample_copy o st in (st', h ++ [s])
      | None => (st, h)
      end
  | Assign i j =>
      match nth_error h j with
      | Some o => (st, update i o h)
      | None => (st, h)
      end
  | Call i m =>
      match nth_error h i with
      | Some o => (st, update i (mutate m o) h)
      | None => (st, h)
      end
  | SetAspectRatio r => (setAspectRatio r st, h)
  | SetAspectRatioWH w hgt => (setAspectRatio_wh w hgt st, h)
  end.

Definition run (p : list stmt) (cfg : Statics * store) : Statics * store :=
  fold_left (fun c s => exec s c) p cfg.

(** The number of constructor calls a program makes. *)
Definition count_new (p : list stmt) : nat :=
  length (filter (fun c => match c with New _ => true | _ => false end) p).

(** The two invariants the data model states, as the C++ tests
    [weight >= 0] and [vsize > 0]. *)
Definition weight_nonneg (s : Sample) : bool := Double.ge (weight s) 0%float.
Definition vsize_positive (s : Sample) : bool := Double.gt (vsize s) 0%float.

(** [n] default constructions in a row, keeping only the statics. *)
Definition construct_many (n : N) (st : Statics) : Statics :=
  N.iter n (fun st' => snd (construct Ctor_default st')) st.

(** The data member a mutator assigns. *)
Inductive member : Type :=
| m_x | m_y | m_size | m_vx | m_vy | m_vsize | m_weight | m_object.

Definition written (m : mutator) : member :=
  match m with
  | SetX _ => m_x
  | SetY _ => m_y
  | SetSize _ => m_size
  | SetVx _ => m_vx
  | SetVy _ => m_vy
  | SetVSize _ => m_vsize
  | SetWeight _ => m_weight
  | SetObject _ => m_object
  end.

(** The equivalence a sorting algorithm derives from [operator<]: neither
    sample comes before the other, [!(a < b) && !(b < a)]. *)
Definition equivalent (a b : Sample) : bool :=
  negb (operator_lt a b) && negb (operator_lt b a).

(** The aspect ratio the static setters of a program leave behind, starting
    from [r0]. *)
Definition ratio_after (p : list stmt) (r0 : double) : double :=
  fold_left
    (fun r c =>
       match c with
       | SetAspectRatio r' => r'
       | SetAspectRatioWH w h => PrimFloat.div (of_int h) (of_int w)
       | _ => r
       end) p r0.

End condensation.

(** ** imageprocessing::GrayscaleFilter *)

Module imageprocessing.

(** cv::Mat, as far as the filter looks at it: the geometry, the number of
    channels reported by [channels()], and the element values in row-major,
    channel-interleaved order. *)
Record Mat : Type := mkMat {
  rows : Z;
  cols : Z;
  channels : Z;
  data : list Z
}.

(** [image.copyTo(filtered)]: the destination becomes a deep copy, equal in
    content to the source. *)
Definition copyTo (image : Mat) : Mat := image.

Section Filter.

(** OpenCV's [cvtColor(src, dst, CV_BGR2GRAY)] is not part of this
    repository.  It yields the converted image, or [None] when it raises
    cv::Exception (as it does on a source that has neither three nor four
    channels). *)
Variable cvtColor_BGR2GRAY : Mat -> option Mat.

(** [Mat GrayscaleFilter::applyTo(const Mat& image, Mat& filtered)]: the
    result is the returned matrix paired with the new content of
    [filtered]; [None] is a propagated exception. *)
Definition applyTo (image filtered : Mat) : option (Mat * Mat) :=
  if 1 <? channels image then
    match cvtColor_BGR2GRAY image with
    | Some filtered' => Some (filtered', filtered')
    | None => None
    end
  else
    let filtered' := copyTo image in
    Some (filtered', filtered').

(** [void GrayscaleFilter::applyInPlace(Mat& image)]: the result is the new
    content of [image]; [None] is a propagated exception. *)
Definition applyInPlace (image : Mat) : option Mat :=
  if 1 <? channels image then
    match cvtColor_BGR2GRAY image with
    | Some tmp => Some tmp
    | None => None
    end
  else Some image.

End Filter.

(** One concrete conversion, used to instantiate the parameter in examples:
    OpenCV's fixed-point luma for 8-bit images. *)
Definition luma (b g r : Z) : Z :=
  Z.shiftr (b * 1868 + g * 9617 + r * 4899 + 8192) 14.

Fixpoint gray_of_bgr (d : list Z) : list Z :=
  match d with
  | b :: g :: r :: t => luma b g r :: gray_of_bgr t
  | _ => []
  end.

Fixpoint gray_of_bgra (d : list Z) : list Z :=
  match d with
  | b :: g :: r :: _ :: t => luma b g r :: gray_of_bgra t
  | _ => []
  end.

Definition cvtColor_8u (m : Mat) : option Mat :=
  if channels m =? 3 then Some (mkMat (rows m) (cols m) 1 (gray_of_bgr (data m)))
  else if channels m =? 4 then Some (mkMat (rows m) (cols m) 1 (gray_of_bgra (data m)))
  else None.

End imageprocessing.

(** ** classification::ProbabilisticSvmClassifier *)

Module classification.

Local Open Scope R_scope.

(** The data members [logisticA] and [logisticB] of the classifier. *)
Record ProbabilisticSvmClassifier : Type := mkProbabilisticSvmClassifier {
  logisticA : R;
  logisticB : R
}.

Section Logistic.

(** The binary decision of the underlying SVM on a hyperplane distance;
    [SvmClassifier] is only forward-declared in the header. *)
Variable svm_classify : R -> bool.

(** Modelled from the spec: the body of
    [ProbabilisticSvmClassifier::getProbability(double hyperplaneDistance)]
    lives in a .cpp file that is not among the sources; the header
    documents it as returning the binary classification result together
    with [p(x) = 1 / (1 + exp(a + b * x))], [x] being the hyperplane
    distance.  The formula is taken over the real numbers, as the
    documentation states it. *)
Definition getProbability (c : ProbabilisticSvmClassifier)
  (hyperplaneDistance : R) : bool * R :=
  (svm_classify hyperplaneDistance,
   1 / (1 + exp (logisticA c + logisticB c * hyperplaneDistance))).

End Logistic.

(** The default arguments of both constructors:
    [logisticA = 0.00556, logisticB = -2.95]. *)
Definition default_parameters : ProbabilisticSvmClassifier :=
  mkProbabilisticSvmClassifier (556 / 100000) (- (295 / 100)).

End classification.

(* ================================================================= *)
(** * Part II: properties *)
(* ================================================================= *)

Import Double condensation.

(** ** Integer and floating-point facts *)

Lemma wrap_in_range (z : Z) : Int32.in_range z -> Int32.wrap z = z.
Proof.
  unfold Int32.in_range, Int32.INT_MIN, Int32.INT_MAX, Int32.wrap. intros H.
  rewrite Z.mod_small; lia.
Qed.

Lemma wrap_range (z : Z) : Int32.in_range (Int32.wrap z).
Proof.
  unfold Int32.in_range, Int32.INT_MIN, Int32.INT_MAX, Int32.wrap.
  pose proof (Z.mod_pos_bound (z + 2147483648) 4294967296 ltac:(lia)). lia.
Qed.

Lemma wrap_congr (a b : Z) :
  Int32.wrap (Int32.wrap a + b) = Int32.wrap (a + b).
Proof.
  unfold Int32.wrap. f_equal.
  replace ((a + 2147483648) mod 4294967296 - 2147483648 + b + 2147483648)
    with ((a + 2147483648) mod 4294967296 + b) by lia.
  replace (a + b + 2147483648) with ((a + 2147483648) + b) by lia.
  rewrite Zplus_mod_idemp_l. reflexivity.
Qed.

(** Subtracting and adding back the same amount returns to the start, whatever
    wrapped in between. *)
Lemma sub_add_cancel (a q : Z) :
  Int32.in_range a -> Int32.add (Int32.sub a q) q = a.
Proof.
  intros Ha. unfold Int32.add, Int32.sub. rewrite wrap_congr.
  replace (a - q + q) with a by lia. apply wrap_in_range, Ha.
Qed.

(** Swapping the operands of the IEEE comparison mirrors its outcome. *)
Lemma SFcompare_swap (f g : spec_float) :
  SFcompare g f = option_map CompOpp (SFcompare f g).
Proof.
  destruct f as [s|s| |s m e], g as [t|t| |t n k]; simpl;
    try destruct s; try destruct t; try reflexivity;
    rewrite (Z.compare_antisym e k);
    change (PosDef.Pos.compare_cont Eq n m) with (Pos.compare n m);
    change (PosDef.Pos.compare_cont Eq m n) with (Pos.compare m n);
    rewrite (Pos.compare_antisym m n);
    destruct (e ?= k); simpl; try reflexivity;
    destruct (m ?= n)%positive; reflexivity.
Qed.

(** [a > b] on doubles is [b < a]. *)
Lemma gt_lt_swap (a b : double) : Double.gt a b = Double.lt b a.
Proof.
  unfold Double.gt, Double.lt. rewrite compare_spec, ltb_spec. unfold SFltb.
  rewrite (SFcompare_swap (Prim2SF a) (Prim2SF b)).
  destruct (SFcompare (Prim2SF a) (Prim2SF b)) as [[]|]; reflexivity.
Qed.

(** Doubles that compare equal are ordered neither way. *)
Lemma eq_not_lt (a b : double) : Double.eq a b = true -> Double.lt a b = false.
Proof.
  unfold Double.eq, Double.lt. rewrite eqb_spec, ltb_spec. unfold SFeqb, SFltb.
  destruct (SFcompare (Prim2SF a) (Prim2SF b)) as [[]|]; congruence.
Qed.

Lemma eq_not_gt (a b : double) : Double.eq a b = true -> Double.gt a b = false.
Proof.
  unfold Double.eq, Double.gt. rewrite eqb_spec, compare_spec. unfold SFeqb.
  destruct (SFcompare (Prim2SF a) (Prim2SF b)) as [[]|]; simpl; congruence.
Qed.

(** ** Statics and the store under the statements of a client *)

Lemma take_clusterId_spec (st : Statics) :
  take_clusterId st =
  (nextClusterId st,
   mkStatics (aspectRatio st) (Int32.add (nextClusterId st) 1)).
Proof. reflexivity. Qed.

Lemma construct_clusterId (c : ctor) (st : Statics) :
  clusterId (fst (construct c st)) = nextClusterId st.
Proof. destruct c; reflexivity. Qed.

Lemma construct_statics (c : ctor) (st : Statics) :
  snd (construct c st) =
  mkStatics (aspectRatio st) (Int32.add (nextClusterId st) 1).
Proof. destruct c; reflexivity. Qed.

Lemma mutate_clusterId (m : mutator) (s : Sample) :
  clusterId (mutate m s) = clusterId s.
Proof. destruct m; reflexivity. Qed.

Lemma map_clusterId_update (i : nat) (o : Sample) (h : store) :
  incl (map clusterId (update i o h)) (clusterId o :: map clusterId h).
Proof.
  revert i. induction h as [|a t IH]; intros i; simpl.
  - destruct i; apply incl_nil_l.
  - destruct i as [|i']; simpl.
    + intros z [Hz|Hz]; [left; exact Hz | right; right; exact Hz].
    + intros z [Hz|Hz].
      * right; left; exact Hz.
      * destruct (IH i' z Hz) as [H|H]; [left; exact H | right; right; exact H].
Qed.

Lemma map_clusterId_update_same (i : nat) (o o' : Sample) (h : store) :
  nth_error h i = Some o -> clusterId o' = clusterId o ->
  map clusterId (update i o' h) = map clusterId h.
Proof.
  revert i. induction h as [|a t IH]; intros i Hi Hid; simpl.
  - destruct i; reflexivity.
  - destruct i as [|i']; simpl in *.
    + injection Hi as ->. now rewrite Hid.
    + f_equal. now apply IH.
Qed.

Lemma count_new_cons (c : stmt) (p : list stmt) :
  count_new (c :: p) =
  match c with New _ => S (count_new p) | _ => count_new p end.
Proof. unfold count_new. simpl. destruct c; reflexivity. Qed.

(** One statement moves the counter by one exactly when it is a constructor
    call; nothing else writes it. *)
Lemma exec_nextClusterId (c : stmt) (st : Statics) (h : store) :
  nextClusterId (fst (exec c (st, h))) =
  match c with
  | New _ => Int32.add (nextClusterId st) 1
  | _ => nextClusterId st
  end.
Proof.
  destruct c as [k|i|i j|i m|r|w hg]; simpl.
  - pose proof (construct_statics k st) as E.
    destruct (construct k st) as [s st']. simpl in *. now rewrite E.
  - destruct (nth_error h i); reflexivity.
  - destruct (nth_error h j); reflexivity.
  - destruct (nth_error h i); reflexivity.
  - reflexivity.
  - reflexivity.
Qed.

(** After a program, the counter has advanced (modulo 2^32) by the number of
    constructor calls the program made. *)
Lemma run_nextClusterId (p : list stmt) :
  forall (st : Statics) (h : store),
    Int32.in_range (nextClusterId st) ->
    nextClusterId (fst (run p (st, h))) =
    Int32.wrap (nextClusterId st + Z.of_nat (count_new p)).
Proof.
  induction p as [|c p IH]; intros st h Hr.
  - simpl. rewrite Z.add_0_r. symmetry. now apply wrap_in_range.
  - change (run (c :: p) (st, h)) with (run p (exec c (st, h))).
    pose proof (exec_nextClusterId c st h) as E.
    destruct (exec c (st, h)) as [st1 h1]. simpl in E.
    rewrite count_new_cons.
    rewrite IH.
    + rewrite E. destruct c; try reflexivity.
      unfold Int32.add. rewrite wrap_congr. f_equal. lia.
    + rewrite E. destruct c; try assumption. apply wrap_range.
Qed.

(** ** Heights and bounds *)




(** C2: [getBounds()] is the rectangle of width [getWidth() = size], height
    [getHeight() = cvRound(aspectRatio * size)] and top-left corner
    [(x - getWidth()/2, y - getHeight()/2)] in [int] arithmetic with truncating
    division; it is a function of [(x, y, size, aspectRatio)] alone; the call
    leaves the sample and the statics as they were; and for [x], [y] of type
    [int] the corner plus half the extent gives back [(x, y)]. *)
Theorem getBounds_spec :
  forall (cvRound : double -> Z) (st : Statics) (s : Sample),
    Int32.in_range (x s) -> Int32.in_range (y s) ->
    let b := getBounds cvRound st s in
    rect_width b = getWidth s
    /\ getWidth s = size s
    /\ rect_height b = getHeight cvRound st s
    /\ getHeight cvRound st s
         = cvRound (PrimFloat.mul (aspectRatio st) (of_int (size s)))
    /\ rect_x b = Int32.sub (x s) (Int32.wrap (Z.quot (getWidth s) 2))
    /\ rect_y b = Int32.sub (y s) (Int32.wrap (Z.quot (getHeight cvRound st s) 2))
    /\ (forall (n' : Z) (vx' vy' : Z) (vs' w' : double) (o' : bool) (id' : Z),
          getBounds cvRound (mkStatics (aspectRatio st) n')
            (mkSample (x s) (y s) (size s) vx' vy' vs' w' o' id') = b)
    /\ call_const (getBounds cvRound) st s = (b, s, st)
    /\ Int32.add (rect_x b) (Int32.div (rect_width b) 2) = x s
    /\ Int32.add (rect_y b) (Int32.div (rect_height b) 2) = y s.
Proof.
  intros cvRound st s Hx Hy b. subst b.
  repeat split; try reflexivity.
  - simpl. apply sub_add_cancel, Hx.
  - simpl. apply sub_add_cancel, Hy.
Qed.

Lemma getBounds_spec_witness :
  let s := mkSample 100 50 21 0 0 1%float 1%float false 7 in
  let st := mkStatics 1.5%float 8 in
  getBounds cvRound_rne st s = mkRect 90 34 21 32
  /\ Int32.add (rect_x (getBounds cvRound_rne st s))
       (Int32.div (rect_width (getBounds cvRound_rne st s)) 2) = 100
  /\ Int32.add (rect_y (getBounds cvRound_rne st s))
       (Int32.div (rect_height (getBounds cvRound_rne st s)) 2) = 50.
Proof.
  intros s st.
  assert (Hx : Int32.in_range (x s)) by (vm_compute; split; discriminate).
  assert (Hy : Int32.in_range (y s)) by (vm_compute; split; discriminate).
  pose proof (getBounds_spec cvRound_rne st s Hx Hy) as H.
  cbv zeta in H.
  destruct H as (_ & _ & _ & _ & _ & _ & _ & _ & Hcx & Hcy).
  split; [vm_compute; reflexivity | split; [exact Hcx | exact Hcy]].
Defined.

(** Where nothing overflows, the corner is the mathematical [x - size / 2], and
    [x] is within one half of the exact centre [rect_x + width / 2]. *)
Lemma quot2_bounds (a : Z) :
  2 * Z.quot a 2 - 1 <= a <= 2 * Z.quot a 2 + 1 /\ Z.abs (Z.quot a 2) <= Z.abs a.
Proof.
  pose proof (Z.quot_rem a 2 ltac:(lia)) as E.
  pose proof (Z.rem_bound_abs a 2 ltac:(lia)) as B.
  change (Z.abs 2) with 2 in B.
  destruct (Z.abs_spec (Z.rem a 2)) as [[? Ha]|[? Ha]]; rewrite Ha in B; lia.
Qed.

Lemma getBounds_centre_exact (cvRound : double -> Z) (st : Statics) (s : Sample) :
  Int32.in_range (size s) ->
  Int32.in_range (x s - Z.quot (size s) 2) ->
  rect_x (getBounds cvRound st s) = x s - Z.quot (size s) 2
  /\ Z.abs (2 * x s - (2 * rect_x (getBounds cvRound st s)
                        + rect_width (getBounds cvRound st s))) <= 1.
Proof.
  intros Hs Hc. unfold getBounds. cbn [rect_x rect_width].
  unfold getWidth, Int32.sub, Int32.div.
  pose proof (quot2_bounds (size s)) as [Hb Hab].
  assert (Hq : Int32.in_range (Z.quot (size s) 2)).
  { unfold Int32.in_range, Int32.INT_MIN, Int32.INT_MAX in *. lia. }
  rewrite (wrap_in_range _ Hq), (wrap_in_range _ Hc).
  split; [reflexivity|]. lia.
Qed.

(** C9: [setAspectRatio(width, height)] stores [height / width] (as doubles) in
    the static [aspectRatio] and touches nothing else; from then on every
    sample, whenever it was constructed, gets its height and bounds from that
    ratio.  Concretely, a sample of size 10 built while the ratio is 1 has
    height 10, and height 15 after [setAspectRatio(2, 3)]. *)
Theorem setAspectRatio_wh_spec :
  (forall (cvRound : double -> Z) (width height : Z) (st : Statics) (s : Sample),
      let st' := setAspectRatio_wh width height st in
      aspectRatio st' = PrimFloat.div (of_int height) (of_int width)
      /\ nextClusterId st' = nextClusterId st
      /\ getHeight cvRound st' s
           = cvRound (PrimFloat.mul (PrimFloat.div (of_int height) (of_int width))
                        (of_int (size s)))
      /\ getBounds cvRound st' s
           = mkRect (Int32.sub (x s) (Int32.div (size s) 2))
                    (Int32.sub (y s) (Int32.div (getHeight cvRound st' s) 2))
                    (size s)
                    (getHeight cvRound st' s)
      /\ (forall h : store,
            exec (SetAspectRatioWH width height) (st, h) = (st', h)))
  /\ (let st0 := mkStatics 1%float 0 in
      let s := fst (construct (Ctor_xys 40 30 10) st0) in
      let st1 := snd (construct (Ctor_xys 40 30 10) st0) in
      getHeight cvRound_rne st1 s = 10
      /\ aspectRatio (setAspectRatio_wh 2 3 st1) = 1.5%float
      /\ getHeight cvRound_rne (setAspectRatio_wh 2 3 st1) s = 15
      /\ getBounds cvRound_rne st1 s = mkRect 35 25 10 10
      /\ getBounds cvRound_rne (setAspectRatio_wh 2 3 st1) s = mkRect 35 23 10 15).
Proof.
  split.
  - intros cvRound width height st s st'. subst st'.
    repeat split; reflexivity.
  - vm_compute. repeat split; reflexivity.
Qed.

(** ** Cluster ids *)

Lemma construct_many_nextClusterId (n : N) (st : Statics) :
  Int32.in_range (nextClusterId st) ->
  nextClusterId (construct_many n st)
    = Int32.wrap (nextClusterId st + Z.of_N n).
Proof.
  intros Hr. unfold construct_many.
  induction n as [|n IH] using N.peano_ind.
  - simpl. rewrite Z.add_0_r. symmetry. now apply wrap_in_range.
  - rewrite N.iter_succ, construct_statics. cbn [nextClusterId]. rewrite IH.
    unfold Int32.add. rewrite wrap_congr. f_equal. lia.
Qed.

(** C3, within the range of [int]: every constructor takes its [clusterId] from
    [nextClusterId] and advances the counter by one; as long as the counter
    stays below [INT_MAX], a sample constructed later, after any client
    statements in between, has a strictly larger (hence different) id than one
    constructed earlier. *)
Theorem clusterId_increasing_below_INT_MAX :
  forall (c1 c2 : ctor) (p : list stmt) (st : Statics) (h : store),
    Int32.in_range (nextClusterId st) ->
    nextClusterId st + Z.of_nat (count_new p) < Int32.INT_MAX ->
    let r1 := construct c1 st in
    let cfg := run p (snd r1, h ++ [fst r1]) in
    let r2 := construct c2 (fst cfg) in
    clusterId (fst r1) = nextClusterId st
    /\ nextClusterId (snd r1) = nextClusterId st + 1
    /\ clusterId (fst r2) = nextClusterId st + 1 + Z.of_nat (count_new p)
    /\ nextClusterId (snd r2) = Int32.add (clusterId (fst r2)) 1
    /\ clusterId (fst r1) < clusterId (fst r2)
    /\ clusterId (fst r1) <> clusterId (fst r2).
Proof.
  intros c1 c2 p st h Hr Hb r1 cfg r2.
  assert (H1 : clusterId (fst r1) = nextClusterId st)
    by apply construct_clusterId.
  assert (Hn1 : nextClusterId (snd r1) = nextClusterId st + 1).
  { subst r1. rewrite construct_statics. simpl. unfold Int32.add.
    apply wrap_in_range.
    unfold Int32.in_range, Int32.INT_MIN, Int32.INT_MAX in *. lia. }
  assert (H2 : clusterId (fst r2)
               = nextClusterId st + 1 + Z.of_nat (count_new p)).
  { subst r2. rewrite construct_clusterId. subst cfg.
    rewrite run_nextClusterId.
    - rewrite Hn1. apply wrap_in_range.
      unfold Int32.in_range, Int32.INT_MIN, Int32.INT_MAX in *. lia.
    - rewrite Hn1.
      unfold Int32.in_range, Int32.INT_MIN, Int32.INT_MAX in *. lia. }
  assert (Hn2 : nextClusterId (snd r2) = Int32.add (clusterId (fst r2)) 1).
  { subst r2. rewrite construct_statics, construct_clusterId. reflexivity. }
  repeat split; try assumption; lia.
Qed.

Lemma clusterId_increasing_below_INT_MAX_witness :
  let st := mkStatics 1%float 5 in
  let r1 := construct (Ctor_xys 1 2 3) st in
  let cfg := run [New Ctor_default; Call 0 (SetWeight 0.5%float); CopyNew 0;
                  SetAspectRatioWH 4 3; New (Ctor_xys 9 9 9)]
                 (snd r1, [] ++ [fst r1]) in
  let r2 := construct Ctor_default (fst cfg) in
  clusterId (fst r1) = 5 /\ clusterId (fst r2) = 8
  /\ clusterId (fst r1) < clusterId (fst r2).
Proof.
  intros st r1 cfg r2.
  assert (Hr : Int32.in_range (nextClusterId st))
    by (vm_compute; split; discriminate).
  assert (Hb : nextClusterId st
               + Z.of_nat (count_new
                   [New Ctor_default; Call 0 (SetWeight 0.5%float); CopyNew 0;
                    SetAspectRatioWH 4 3; New (Ctor_xys 9 9 9)])
               < Int32.INT_MAX) by (vm_compute; reflexivity).
  pose proof (clusterId_increasing_below_INT_MAX
                (Ctor_xys 1 2 3) Ctor_default _ st [] Hr Hb) as H.
  cbv zeta in H. destruct H as (Ha & _ & Hc & _ & Hlt & _).
  split; [exact Ha | split; [exact Hc | exact Hlt]].
Defined.

(** C3, at the end of the range of [int], where the order breaks: at
    [nextClusterId = INT_MAX] the next sample gets [INT_MAX] and the one after
    it [INT_MIN], which is smaller; and 2^32 constructions after the counter stood at 0 it stands at 0
    again, so the next sample repeats the id of the first. *)
Lemma clusterId_not_increasing_at_INT_MAX :
  (let st := mkStatics 1%float Int32.INT_MAX in
   let r1 := construct Ctor_default st in
   let r2 := construct Ctor_default (snd r1) in
   clusterId (fst r1) = 2147483647
   /\ clusterId (fst r2) = -2147483648
   /\ (clusterId (fst r1) <? clusterId (fst r2)) = false)
  /\ (let st := mkStatics 1%float 0 in
      clusterId (fst (construct Ctor_default st))
      = clusterId (fst (construct Ctor_default
                          (construct_many 4294967296 st)))).
Proof.
  split.
  - vm_compute. repeat split; reflexivity.
  - cbv zeta. rewrite !construct_clusterId.
    rewrite construct_many_nextClusterId
      by (vm_compute; split; discriminate).
    reflexivity.
Qed.

(** C4: copying a sample yields a sample with the same [clusterId] (indeed the
    same members) and leaves the id counter alone; no member function changes
    the [clusterId] of the sample it is called on; and no client statement
    other than a constructor call moves the counter or brings an id into the
    store that was not there before. *)
Theorem copy_preserves_clusterId :
  forall (s : Sample) (st : Statics) (m : mutator) (c : stmt) (h : store),
    fst (Sample_copy s st) = s
    /\ getClusterId (fst (Sample_copy s st)) = getClusterId s
    /\ snd (Sample_copy s st) = st
    /\ getClusterId (mutate m s) = getClusterId s
    /\ match c with
       | New _ => True
       | _ => nextClusterId (fst (exec c (st, h))) = nextClusterId st
              /\ incl (map clusterId (snd (exec c (st, h)))) (map clusterId h)
       end
    /\ (forall i : nat,
          match nth_error h i with
          | Some o =>
              snd (exec (CopyNew i) (st, h)) = h ++ [o]
              /\ map clusterId (snd (exec (Call i m) (st, h))) = map clusterId h
          | None => True
          end).
Proof.
  intros s st m c h.
  split; [reflexivity|]. split; [reflexivity|]. split; [reflexivity|].
  split; [apply mutate_clusterId|]. split.
  - destruct c as [k|i|i j|i m'|r|w hg]; try exact I;
      (split;
        [lazymatch goal with
         | |- nextClusterId (fst (exec ?k _)) = _ =>
             exact (exec_nextClusterId k st h)
         end|]); simpl.
    + destruct (nth_error h i) as [o|] eqn:E; simpl; [|apply incl_refl].
      rewrite map_app. simpl. apply incl_app; [apply incl_refl|].
      intros z [<-|[]]. apply in_map. eapply nth_error_In; eauto.
    + destruct (nth_error h j) as [o|] eqn:E; simpl; [|apply incl_refl].
      intros z Hz. destruct (map_clusterId_update i o h z Hz) as [<-|H];
        [|exact H].
      apply in_map. eapply nth_error_In; eauto.
    + destruct (nth_error h i) as [o|] eqn:E; simpl; [|apply incl_refl].
      rewrite (map_clusterId_update_same i o (mutate m' o) h E
                 (mutate_clusterId m' o)).
      apply incl_refl.
    + apply incl_refl.
    + apply incl_refl.
  - intros i. destruct (nth_error h i) as [o|] eqn:E; [|exact I].
    split.
    + simpl. rewrite E. reflexivity.
    + simpl. rewrite E. simpl.
      apply (map_clusterId_update_same i o (mutate m o) h E
               (mutate_clusterId m o)).
Qed.

(** ** Weights and size factors *)

(** C5, as the class has it: a newly constructed sample has weight 1, which is
    non-negative; [setWeight(w)] stores [w] as it is, so the weight is
    non-negative afterwards exactly when [w >= 0]; every other member function
    and copying leave the weight unchanged. *)
Theorem weight_after_operations :
  forall (c : ctor) (st : Statics) (m : mutator) (s : Sample) (w : double),
    weight (fst (construct c st)) = 1%float
    /\ weight_nonneg (fst (construct c st)) = true
    /\ getWeight (setWeight w s) = w
    /\ weight_nonneg (setWeight w s) = Double.ge w 0%float
    /\ weight (mutate m s) = match m with SetWeight v => v | _ => weight s end
    /\ weight (fst (Sample_copy s st)) = weight s.
Proof.
  intros c st m s w.
  split; [destruct c; reflexivity|].
  split; [destruct c; vm_compute; reflexivity|].
  split; [reflexivity|]. split; [reflexivity|].
  split; [destruct m; reflexivity | reflexivity].
Qed.

(** C5, a negative weight gets in: [setWeight(-1.0)] on a fresh sample, whose weight is
    non-negative, leaves it with the negative weight -1. *)
Lemma setWeight_accepts_negative :
  let s := fst (construct Ctor_default (mkStatics 1%float 0)) in
  weight_nonneg s = true
  /\ getWeight (mutate (SetWeight (-1)%float) s) = (-1)%float
  /\ weight_nonneg (mutate (SetWeight (-1)%float) s) = false
  /\ Double.lt (getWeight (setWeight (-1)%float s)) 0%float = true.
Proof. vm_compute. repeat split; reflexivity. Qed.

(** C6, as the class has it: the default and the three-argument constructor
    set [vsize] to 1, which is positive; the six-argument constructor and
    [setVSize] store the [float] they receive as it is, without check or
    clamp, so [vsize > 0] holds afterwards exactly when that [float] is
    positive; an argument of another type is converted to [float] by the call
    (the double nearest 0.1 arrives as 0x1.99999ap-4, the tiny positive
    double nearest 1e-50 as 0, which is not positive); every other member function and copying leave [vsize]
    unchanged. *)
Theorem vsize_after_operations :
  forall (c : ctor) (st : Statics) (m : mutator) (s : Sample) (v : double),
    vsize (fst (construct c st))
      = match c with
        | Ctor_full _ _ _ _ _ v0 => to_float v0
        | _ => 1%float
        end
    /\ vsize_positive (fst (construct Ctor_default st)) = true
    /\ (forall x0 y0 size0 : Z,
          vsize_positive (fst (construct (Ctor_xys x0 y0 size0) st)) = true)
    /\ (forall x0 y0 size0 vx0 vy0 : Z,
          vsize_positive (fst (construct (Ctor_full x0 y0 size0 vx0 vy0 v) st))
            = Double.gt (to_float v) 0%float)
    /\ getVSize (setVSize v s) = to_float v
    /\ vsize_positive (setVSize v s) = Double.gt (to_float v) 0%float
    /\ vsize (mutate m s)
       = match m with SetVSize v0 => to_float v0 | _ => vsize s end
    /\ vsize (fst (Sample_copy s st)) = vsize s
    /\ (to_float v = v ->
        getVSize (setVSize v s) = v
        /\ vsize_positive (setVSize v s) = Double.gt v 0%float
        /\ forall x0 y0 size0 vx0 vy0 : Z,
             getVSize (fst (construct (Ctor_full x0 y0 size0 vx0 vy0 v) st)) = v
             /\ vsize_positive
                  (fst (construct (Ctor_full x0 y0 size0 vx0 vy0 v) st))
                = Double.gt v 0%float)
    /\ (getVSize (setVSize 0.5%float s) = 0.5%float
        /\ getVSize (setVSize 0x1.999999999999ap-4%float s) = 0x1.99999ap-4%float
        /\ getVSize (fst (construct
                            (Ctor_full 0 0 0 0 0 0x1.999999999999ap-4%float) st))
           = 0x1.99999ap-4%float
        /\ Double.gt 0x1.dee7a4ad4b81fp-167%float 0%float = true
        /\ getVSize (setVSize 0x1.dee7a4ad4b81fp-167%float s) = 0%float
        /\ vsize_positive (setVSize 0x1.dee7a4ad4b81fp-167%float s) = false
        /\ getVSize (setVSize 0x1p128%float s) = PrimFloat.infinity).
Proof.
  intros c st m s v.
  split; [destruct c; reflexivity|].
  split; [vm_compute; reflexivity|].
  split; [intros; vm_compute; reflexivity|].
  split; [intros; reflexivity|].
  split; [reflexivity|]. split; [reflexivity|].
  split; [destruct m; reflexivity|]. split; [reflexivity|].
  split.
  - intros Hv. unfold getVSize, vsize_positive. simpl. rewrite Hv.
    repeat split; reflexivity.
  - unfold getVSize, vsize_positive. simpl.
    repeat split; vm_compute; reflexivity.
Qed.

Lemma vsize_after_operations_witness :
  let s := mkSample 3 4 20 1 1 1%float 1%float true 6 in
  getVSize (setVSize 0.75%float s) = 0.75%float
  /\ vsize_positive (setVSize 0.75%float s) = true.
Proof.
  intros s.
  assert (Hf : to_float 0.75%float = 0.75%float) by (vm_compute; reflexivity).
  destruct (vsize_after_operations Ctor_default (mkStatics 1%float 0)
              (SetX 0) s 0.75%float)
    as (_ & _ & _ & _ & _ & _ & _ & _ & H & _).
  destruct (H Hf) as (H1 & H2 & _).
  split; [exact H1|]. rewrite H2. vm_compute. reflexivity.
Defined.

(** C6, a non-positive factor gets in, twice over: the six-argument constructor called with
    [vsize = -1] builds a sample with [vsize = -1], and [setVSize(0)] on a fresh
    sample, whose [vsize] is positive, leaves it with [vsize = 0]. *)
Lemma vsize_not_guarded :
  let st := mkStatics 1%float 0 in
  let s := fst (construct Ctor_default st) in
  vsize_positive (fst (construct (Ctor_full 10 10 20 0 0 (-1)%float) st)) = false
  /\ getVSize (fst (construct (Ctor_full 10 10 20 0 0 (-1)%float) st)) = (-1)%float
  /\ vsize_positive s = true
  /\ getVSize (mutate (SetVSize 0%float) s) = 0%float
  /\ vsize_positive (mutate (SetVSize 0%float) s) = false.
Proof. vm_compute. repeat split; reflexivity. Qed.

(** ** Ordering by weight *)

(** C7: [operator<], [operator>] and the two comparator classes look at the
    weights only: [a < b] is [a.weight < b.weight], [a > b] is
    [a.weight > b.weight], the ascending comparator is [<], the descending one
    is [>], [a < b] is [b > a], and samples of equal weight are ordered
    neither way. *)
Theorem weight_only_ordering :
  forall a b : Sample,
    operator_lt a b = Double.lt (weight a) (weight b)
    /\ operator_gt a b = Double.gt (weight a) (weight b)
    /\ WeightComparisonAsc a b = operator_lt a b
    /\ WeightComparisonDesc a b = operator_gt a b
    /\ operator_lt a b = operator_gt b a
    /\ (Double.eq (weight a) (weight b) = true ->
        operator_lt a b = false /\ operator_gt a b = false
        /\ operator_lt b a = false /\ operator_gt b a = false).
Proof.
  intros a b.
  split; [reflexivity|]. split; [reflexivity|].
  split; [reflexivity|]. split; [reflexivity|].
  split.
  - unfold operator_lt, operator_gt. symmetry. apply gt_lt_swap.
  - intros He. unfold operator_lt, operator_gt.
    rewrite (gt_lt_swap (weight b) (weight a)).
    rewrite (eq_not_lt _ _ He), (eq_not_gt _ _ He).
    rewrite <- (gt_lt_swap (weight a) (weight b)), (eq_not_gt _ _ He).
    repeat split; reflexivity.
Qed.

Lemma weight_only_ordering_witness :
  let a := mkSample 1 2 3 0 0 1%float 0.5%float true 0 in
  let b := mkSample 7 8 9 1 1 2%float 0.5%float false 1 in
  operator_lt a b = false /\ operator_gt a b = false
  /\ operator_lt b a = false /\ operator_gt b a = false.
Proof.
  intros a b.
  destruct (weight_only_ordering a b) as (_ & _ & _ & _ & _ & Htie).
  apply Htie. vm_compute. reflexivity.
Defined.

(** ** The logistic output of the probabilistic SVM *)

Lemma logistic_bounds (t : R) : (0 < 1 / (1 + exp t) < 1)%R.
Proof.
  pose proof (exp_pos t) as He.
  assert (Hd : (0 < 1 + exp t)%R) by lra.
  unfold Rdiv. rewrite Rmult_1_l. split.
  - apply Rinv_0_lt_compat, Hd.
  - rewrite <- Rinv_1 at 2. apply Rinv_lt_contravar; lra.
Qed.

(** C8: [getProbability] returns the binary decision of the SVM together with
    [1 / (1 + exp(a + b * x))]; for every real hyperplane distance [x] and all
    real parameters [a], [b] that second component lies strictly between zero
    and one, hence in [[0, 1]]. *)
Theorem getProbability_in_unit_interval :
  forall (svm_classify : R -> bool)
         (c : classification.ProbabilisticSvmClassifier) (d : R),
    (0 <= snd (classification.getProbability svm_classify c d) <= 1)%R
    /\ (0 < snd (classification.getProbability svm_classify c d) < 1)%R
    /\ fst (classification.getProbability svm_classify c d) = svm_classify d
    /\ snd (classification.getProbability svm_classify c d)
       = (1 / (1 + exp (classification.logisticA c
                        + classification.logisticB c * d)))%R.
Proof.
  intros svm c d. unfold classification.getProbability. cbn [fst snd].
  pose proof (logistic_bounds
                (classification.logisticA c + classification.logisticB c * d))
    as [Hlo Hhi].
  repeat split; try reflexivity; lra.
Qed.

(** ** The grayscale filter *)

Import imageprocessing.

Lemma cvtColor_8u_single_channel (m g : Mat) :
  cvtColor_8u m = Some g -> channels g = 1.
Proof.
  unfold cvtColor_8u.
  destruct (channels m =? 3); [intros [= <-]; reflexivity|].
  destruct (channels m =? 4); [intros [= <-]; reflexivity|].
  discriminate.
Qed.

Section GrayscaleFilter.

Variable cvtColor_BGR2GRAY : Mat -> option Mat.

(** What OpenCV documents of the conversion: whenever it returns, its output
    is a single-channel image. *)
Hypothesis cvtColor_gray :
  forall m g : Mat, cvtColor_BGR2GRAY m = Some g -> channels g = 1.

Lemma applyInPlace_single_channel (image : Mat) :
  channels image = 1 -> applyInPlace cvtColor_BGR2GRAY image = Some image.
Proof. intros H. unfold applyInPlace. rewrite H. reflexivity. Qed.

(** C10: on an image with exactly one channel [applyTo] returns a copy equal
    to the input (and leaves the same in [filtered]); whenever
    [applyInPlace] returns, a second application returns too and changes
    nothing, and the image then has one channel (every cv::Mat has at least
    one). *)
Theorem grayscale_identity_and_idempotent :
  forall image filtered : Mat,
    (channels image = 1 ->
     applyTo cvtColor_BGR2GRAY image filtered = Some (image, image))
    /\ (forall image' : Mat,
          applyInPlace cvtColor_BGR2GRAY image = Some image' ->
          applyInPlace cvtColor_BGR2GRAY image' = Some image'
          /\ (1 <= channels image -> channels image' = 1)).
Proof.
  intros image filtered. split.
  - intros H. unfold applyTo. rewrite H. reflexivity.
  - intros image' Ha. unfold applyInPlace in Ha.
    destruct (1 <? channels image) eqn:Hc.
    + destruct (cvtColor_BGR2GRAY image) as [tmp|] eqn:Et; [|discriminate].
      injection Ha as <-.
      pose proof (cvtColor_gray _ _ Et) as H1.
      split; [apply applyInPlace_single_channel, H1 | intros _; exact H1].
    + injection Ha as <-. apply Z.ltb_ge in Hc.
      split.
      * unfold applyInPlace.
        destruct (1 <? channels image) eqn:Hc'; [|reflexivity].
        apply Z.ltb_lt in Hc'. lia.
      * intros Hge. lia.
Qed.

End GrayscaleFilter.

Lemma grayscale_identity_and_idempotent_witness :
  let bgr := mkMat 1 2 3 [10; 20; 30; 200; 100; 50] in
  let gray := mkMat 1 2 1 [22; 96] in
  applyTo cvtColor_8u gray bgr = Some (gray, gray)
  /\ applyInPlace cvtColor_8u bgr = Some gray
  /\ applyInPlace cvtColor_8u gray = Some gray
  /\ channels gray = 1.
Proof.
  intros bgr gray.
  pose proof (grayscale_identity_and_idempotent cvtColor_8u
                cvtColor_8u_single_channel) as H.
  assert (E : applyInPlace cvtColor_8u bgr = Some gray)
    by (vm_compute; reflexivity).
  destruct (H gray bgr) as [Hid _].
  destruct (H bgr bgr) as [_ Hidem].
  destruct (Hidem gray E) as [H2 H1].
  split; [apply Hid; reflexivity|].
  split; [exact E|]. split; [exact H2|].
  apply H1. vm_compute. discriminate.
Defined.


(* ================================================================= *)
(** * Part III: further properties of the same code *)
(* ================================================================= *)

(** ** Mutators *)

(** X1: two mutators that assign the same member compose to the later one
    (the last write wins); two that assign different members commute. *)
Theorem mutators_compose :
  forall (m1 m2 : mutator) (s : Sample),
    (written m1 = written m2 -> mutate m1 (mutate m2 s) = mutate m1 s)
    /\ (written m1 <> written m2 ->
        mutate m1 (mutate m2 s) = mutate m2 (mutate m1 s)).
Proof.
  intros m1 m2 s.
  destruct m1, m2; split; intros H;
    try reflexivity; try discriminate H; exfalso; apply H; reflexivity.
Qed.

Lemma mutators_compose_witness :
  let s := mkSample 1 2 3 4 5 1%float 1%float false 9 in
  mutate (SetX 7) (mutate (SetX 8) s) = mutate (SetX 7) s
  /\ mutate (SetWeight 0.5%float) (mutate (SetSize 30) s)
     = mutate (SetSize 30) (mutate (SetWeight 0.5%float) s).
Proof.
  intros s. split.
  - apply (mutators_compose (SetX 7) (SetX 8) s). reflexivity.
  - apply (mutators_compose (SetWeight 0.5%float) (SetSize 30) s).
    discriminate.
Defined.

(** ** Bounds *)

Lemma wrap_sub_congr (a q : Z) :
  Int32.wrap (Int32.wrap a - q) = Int32.wrap (a - q).
Proof. apply (wrap_congr a (- q)). Qed.

Lemma sub_half_exact (a n : Z) :
  Int32.in_range n -> Int32.in_range (a - Z.quot n 2) ->
  Int32.sub a (Int32.div n 2) = a - Z.quot n 2.
Proof.
  intros Hn Hc. unfold Int32.sub, Int32.div.
  pose proof (quot2_bounds n) as [Hb Hab].
  assert (Hq : Int32.in_range (Z.quot n 2))
    by (unfold Int32.in_range, Int32.INT_MIN, Int32.INT_MAX in *; lia).
  rewrite (wrap_in_range _ Hq). apply wrap_in_range, Hc.
Qed.

(** X2: for a sample of positive width and height whose corner computation
    does not overflow, the corner is the exact [(x - size/2, y - height/2)],
    the centre [(x, y)] lies inside the rectangle (corner inclusive, far edge
    exclusive), and it is within half a pixel of the rectangle's exact middle
    on both axes. *)
Theorem getBounds_contains_centre :
  forall (cvRound : double -> Z) (st : Statics) (s : Sample),
    1 <= size s <= Int32.INT_MAX ->
    1 <= getHeight cvRound st s <= Int32.INT_MAX ->
    Int32.in_range (x s - Z.quot (size s) 2) ->
    Int32.in_range (y s - Z.quot (getHeight cvRound st s) 2) ->
    let b := getBounds cvRound st s in
    rect_x b = x s - Z.quot (size s) 2
    /\ rect_y b = y s - Z.quot (getHeight cvRound st s) 2
    /\ rect_x b <= x s < rect_x b + rect_width b
    /\ rect_y b <= y s < rect_y b + rect_height b
    /\ Z.abs (2 * x s - (2 * rect_x b + rect_width b)) <= 1
    /\ Z.abs (2 * y s - (2 * rect_y b + rect_height b)) <= 1.
Proof.
  intros cvRound st s Hs Hh Hcx Hcy b. subst b.
  unfold getBounds. cbn [rect_x rect_y rect_width rect_height].
  unfold getWidth.
  assert (Hsr : Int32.in_range (size s))
    by (unfold Int32.in_range, Int32.INT_MIN, Int32.INT_MAX in *; lia).
  assert (Hhr : Int32.in_range (getHeight cvRound st s))
    by (unfold Int32.in_range, Int32.INT_MIN, Int32.INT_MAX in *; lia).
  rewrite (sub_half_exact _ _ Hsr Hcx), (sub_half_exact _ _ Hhr Hcy).
  pose proof (quot2_bounds (size s)) as [Hb1 _].
  pose proof (quot2_bounds (getHeight cvRound st s)) as [Hb2 _].
  assert (0 <= Z.quot (size s) 2) by (apply Z.quot_pos; lia).
  assert (0 <= Z.quot (getHeight cvRound st s) 2) by (apply Z.quot_pos; lia).
  assert (2 * Z.quot (size s) 2 <= size s)
    by (rewrite Z.quot_div_nonneg by lia; apply Z.mul_div_le; lia).
  assert (2 * Z.quot (getHeight cvRound st s) 2 <= getHeight cvRound st s)
    by (rewrite Z.quot_div_nonneg by lia; apply Z.mul_div_le; lia).
  repeat split; lia.
Qed.

Lemma getBounds_contains_centre_witness :
  let s := mkSample 100 50 21 0 0 1%float 1%float false 7 in
  let st := mkStatics 1.5%float 8 in
  let b := getBounds cvRound_rne st s in
  rect_x b = 100 - Z.quot 21 2
  /\ rect_x b <= 100 < rect_x b + rect_width b
  /\ rect_y b <= 50 < rect_y b + rect_height b.
Proof.
  intros s st b.
  assert (H1 : 1 <= size s <= Int32.INT_MAX)
    by (vm_compute; split; discriminate).
  assert (H2 : 1 <= getHeight cvRound_rne st s <= Int32.INT_MAX)
    by (vm_compute; split; discriminate).
  assert (H3 : Int32.in_range (x s - Z.quot (size s) 2))
    by (vm_compute; split; discriminate).
  assert (H4 : Int32.in_range (y s - Z.quot (getHeight cvRound_rne st s) 2))
    by (vm_compute; split; discriminate).
  pose proof (getBounds_contains_centre cvRound_rne st s H1 H2 H3 H4) as H.
  cbv zeta in H. destruct H as (Hx & _ & Hix & Hiy & _).
  split; [exact Hx | split; [exact Hix | exact Hiy]].
Defined.

(** X3: moving a sample by [d] along an axis (in [int] arithmetic, as
    [setX(getX() + d)] does) moves its bounds by [d] along that axis and
    leaves their extent alone, overflow or not; and the velocities, the
    weight and the object flag have no influence on the bounds. *)
Theorem getBounds_translation :
  forall (cvRound : double -> Z) (st : Statics) (s : Sample) (d : Z) (m : mutator),
    let b := getBounds cvRound st s in
    getBounds cvRound st (setX (Int32.add (getX s) d) s)
      = mkRect (Int32.add (rect_x b) d) (rect_y b) (rect_width b) (rect_height b)
    /\ getBounds cvRound st (setY (Int32.add (getY s) d) s)
      = mkRect (rect_x b) (Int32.add (rect_y b) d) (rect_width b) (rect_height b)
    /\ match written m with
       | m_x | m_y | m_size => True
       | _ => getBounds cvRound st (mutate m s) = b
       end.
Proof.
  intros cvRound st s d m b. subst b.
  unfold getBounds, getHeight, getWidth, getX, getY. simpl.
  split; [|split].
  - f_equal. unfold Int32.sub, Int32.add.
    rewrite wrap_sub_congr, wrap_congr. f_equal. lia.
  - f_equal. unfold Int32.sub, Int32.add.
    rewrite wrap_sub_congr, wrap_congr. f_equal. lia.
  - destruct m; simpl; trivial.
Qed.

(** ** The order on samples *)

Ltac sf_cases :=
  repeat match goal with
  | |- context [PosDef.Pos.compare_cont Eq ?a ?b] =>
      change (PosDef.Pos.compare_cont Eq a b) with (Pos.compare a b)
  | H : context [PosDef.Pos.compare_cont Eq ?a ?b] |- _ =>
      change (PosDef.Pos.compare_cont Eq a b) with (Pos.compare a b) in H
  end;
  repeat match goal with
  | H : context [Z.compare ?a ?b] |- _ =>
      destruct (Z.compare_spec a b); simpl in H; try discriminate H
  | H : context [Pos.compare ?a ?b] |- _ =>
      destruct (Pos.compare_spec a b); simpl in H; try discriminate H
  end;
  subst;
  repeat match goal with
  | |- context [Z.compare ?a ?b] => destruct (Z.compare_spec a b)
  | |- context [Pos.compare ?a ?b] => destruct (Pos.compare_spec a b)
  end;
  simpl; try reflexivity; try lia.

(** "Less" and "equal" of the IEEE comparison are transitive. *)
Lemma SFcompare_trans (c : comparison) (f g h : spec_float) :
  c <> Gt ->
  SFcompare f g = Some c -> SFcompare g h = Some c -> SFcompare f h = Some c.
Proof.
  intros Hc.
  destruct c; [| |congruence];
  destruct f as [[]|[]| |[] m1 e1], g as [[]|[]| |[] m2 e2],
           h as [[]|[]| |[] m3 e3]; simpl; try congruence;
    intros H1 H2; injection H1 as H1; injection H2 as H2; f_equal;
    sf_cases.
Qed.

(** Only NaN is unordered with respect to itself, and NaN is unordered with
    respect to everything. *)
Lemma SFcompare_self (f : spec_float) :
  (f <> S754_nan /\ SFcompare f f = Some Eq)
  \/ (f = S754_nan /\ forall g, SFcompare f g = None /\ SFcompare g f = None).
Proof.
  destruct f as [[]|[]| |[] m e];
    try (left; split; [discriminate|]; simpl; try reflexivity;
         rewrite Z.compare_refl;
         change (PosDef.Pos.compare_cont Eq m m) with (Pos.compare m m);
         rewrite Pos.compare_refl; reflexivity).
  right. split; [reflexivity|]. intros g. split; [reflexivity|].
  destruct g; reflexivity.
Qed.

Lemma SFcompare_defined (f g : spec_float) :
  f <> S754_nan -> g <> S754_nan -> exists c, SFcompare f g = Some c.
Proof.
  intros Hf Hg. destruct f as [[]|[]| |[] m e], g as [[]|[]| |[] n k];
    simpl; try congruence; eexists; reflexivity.
Qed.

(** The C++ idiom [w == w] tells NaN from the numbers. *)
Lemma eq_self_not_nan (w : double) :
  Double.eq w w = true -> Prim2SF w <> S754_nan.
Proof.
  unfold Double.eq. rewrite eqb_spec. unfold SFeqb. intros H E.
  rewrite E in H. discriminate H.
Qed.

Lemma eq_self_nan (w : double) :
  Double.eq w w = false -> Prim2SF w = S754_nan.
Proof.
  unfold Double.eq. rewrite eqb_spec. unfold SFeqb. intros H.
  destruct (SFcompare_self (Prim2SF w)) as [[_ E]|[E _]]; [|exact E].
  rewrite E in H. discriminate H.
Qed.

Lemma lt_spec (a b : double) :
  Double.lt a b = true <-> SFcompare (Prim2SF a) (Prim2SF b) = Some Lt.
Proof.
  unfold Double.lt. rewrite ltb_spec. unfold SFltb.
  destruct (SFcompare (Prim2SF a) (Prim2SF b)) as [[]|];
    split; congruence.
Qed.

Lemma eq_spec (a b : double) :
  Double.eq a b = true <-> SFcompare (Prim2SF a) (Prim2SF b) = Some Eq.
Proof.
  unfold Double.eq. rewrite eqb_spec. unfold SFeqb.
  destruct (SFcompare (Prim2SF a) (Prim2SF b)) as [[]|];
    split; congruence.
Qed.

Lemma lt_trans (a b c : double) :
  Double.lt a b = true -> Double.lt b c = true -> Double.lt a c = true.
Proof.
  rewrite !lt_spec. apply SFcompare_trans. discriminate.
Qed.

Lemma lt_asym (a b : double) :
  Double.lt a b = true -> Double.lt b a = false.
Proof.
  intros H. destruct (Double.lt b a) eqn:E; [|reflexivity].
  apply lt_spec in H. apply lt_spec in E.
  rewrite (SFcompare_swap (Prim2SF a) (Prim2SF b)), H in E. discriminate E.
Qed.

Lemma lt_irrefl (a : double) : Double.lt a a = false.
Proof.
  destruct (Double.lt a a) eqn:E; [|reflexivity].
  pose proof (lt_asym a a E). congruence.
Qed.

(** X4: [operator<] is a strict partial order on all samples, whatever their
    weights (NaN included): no sample is less than itself, [a < b] excludes
    [b < a], and [a < b], [b < c] give [a < c]; the same holds for
    [operator>]. *)
Theorem operator_lt_strict_order :
  forall a b c : Sample,
    operator_lt a a = false
    /\ operator_gt a a = false
    /\ (operator_lt a b = true -> operator_lt b a = false)
    /\ (operator_gt a b = true -> operator_gt b a = false)
    /\ (operator_lt a b = true -> operator_lt b c = true ->
        operator_lt a c = true)
    /\ (operator_gt a b = true -> operator_gt b c = true ->
        operator_gt a c = true).
Proof.
  intros a b c. unfold operator_lt, operator_gt.
  rewrite !gt_lt_swap.
  split; [apply lt_irrefl|]. split; [apply lt_irrefl|].
  split; [apply lt_asym|]. split; [apply lt_asym|].
  split; [apply lt_trans|].
  intros H1 H2. exact (lt_trans _ _ _ H2 H1).
Qed.

Lemma operator_lt_strict_order_witness :
  let a := mkSample 0 0 10 0 0 1%float 0.25%float false 0 in
  let b := mkSample 5 5 10 0 0 1%float 0.5%float true 1 in
  let c := mkSample 9 9 10 0 0 1%float 0.75%float true 2 in
  operator_lt a c = true /\ operator_lt b a = false.
Proof.
  intros a b c.
  destruct (operator_lt_strict_order a b c) as (_ & _ & Has & _ & Htr & _).
  split.
  - apply Htr; vm_compute; reflexivity.
  - apply Has. vm_compute. reflexivity.
Defined.

(** X5: on samples whose weights are numbers (not NaN), [operator<] is a
    strict weak ordering: exactly one of [a < b], "equivalent" and [a > b]
    holds, equivalent means the weights compare equal, and equivalence is
    transitive. *)
Theorem operator_lt_weak_order_without_nan :
  forall a b c : Sample,
    Double.eq (weight a) (weight a) = true ->
    Double.eq (weight b) (weight b) = true ->
    Double.eq (weight c) (weight c) = true ->
    equivalent a b = Double.eq (weight a) (weight b)
    /\ ((operator_lt a b = true /\ equivalent a b = false
         /\ operator_gt a b = false)
        \/ (operator_lt a b = false /\ equivalent a b = true
            /\ operator_gt a b = false)
        \/ (operator_lt a b = false /\ equivalent a b = false
            /\ operator_gt a b = true))
    /\ (equivalent a b = true -> equivalent b c = true ->
        equivalent a c = true).
Proof.
  intros a b c Ha Hb Hc.
  apply eq_self_not_nan in Ha, Hb, Hc.
  assert (Heqv : forall u v : Sample,
             Prim2SF (weight u) <> S754_nan ->
             Prim2SF (weight v) <> S754_nan ->
             equivalent u v = Double.eq (weight u) (weight v)
             /\ ((operator_lt u v = true /\ equivalent u v = false
                  /\ operator_gt u v = false)
                 \/ (operator_lt u v = false /\ equivalent u v = true
                     /\ operator_gt u v = false)
                 \/ (operator_lt u v = false /\ equivalent u v = false
                     /\ operator_gt u v = true))).
  { intros u v Hu Hv.
    unfold equivalent, operator_lt, operator_gt. rewrite gt_lt_swap.
    unfold Double.lt, Double.eq. rewrite !ltb_spec, eqb_spec.
    unfold SFltb, SFeqb.
    rewrite (SFcompare_swap (Prim2SF (weight u)) (Prim2SF (weight v))).
    destruct (SFcompare_defined _ _ Hu Hv) as [k ->].
    destruct k; simpl; split; auto. }
  destruct (Heqv a b Ha Hb) as [Eab Tab].
  split; [exact Eab|]. split; [exact Tab|].
  destruct (Heqv b c Hb Hc) as [Ebc _].
  destruct (Heqv a c Ha Hc) as [Eac _].
  rewrite Eab, Ebc, Eac, !eq_spec. apply SFcompare_trans. discriminate.
Qed.

Lemma operator_lt_weak_order_without_nan_witness :
  let a := mkSample 0 0 10 0 0 1%float 0.5%float false 0 in
  let b := mkSample 5 5 12 1 0 1%float 0.5%float true 1 in
  let c := mkSample 9 9 14 0 1 2%float 0.5%float true 2 in
  equivalent a c = true.
Proof.
  intros a b c.
  assert (Ha : Double.eq (weight a) (weight a) = true)
    by (vm_compute; reflexivity).
  assert (Hb : Double.eq (weight b) (weight b) = true)
    by (vm_compute; reflexivity).
  assert (Hc : Double.eq (weight c) (weight c) = true)
    by (vm_compute; reflexivity).
  destruct (operator_lt_weak_order_without_nan a b c Ha Hb Hc)
    as (_ & _ & Htr).
  apply Htr; vm_compute; reflexivity.
Defined.

(** X6: a sample whose weight is NaN (which [setWeight] accepts) is neither
    less nor greater than any sample, so it is equivalent to every sample,
    also to two that are strictly ordered between themselves. *)
Theorem nan_weight_ties_with_everything :
  forall a b : Sample,
    Double.eq (weight b) (weight b) = false ->
    operator_lt a b = false /\ operator_lt b a = false
    /\ operator_gt a b = false /\ operator_gt b a = false
    /\ equivalent a b = true /\ equivalent b a = true.
Proof.
  intros a b Hn. apply eq_self_nan in Hn.
  assert (L1 : operator_lt a b = false).
  { unfold operator_lt, Double.lt. rewrite ltb_spec. unfold SFltb.
    rewrite Hn. destruct (Prim2SF (weight a)); reflexivity. }
  assert (L2 : operator_lt b a = false).
  { unfold operator_lt, Double.lt. rewrite ltb_spec. unfold SFltb.
    rewrite Hn. reflexivity. }
  unfold equivalent, operator_gt. rewrite !gt_lt_swap.
  fold (operator_lt b a). fold (operator_lt a b). rewrite L1, L2.
  repeat split; reflexivity.
Qed.

Lemma nan_weight_ties_with_everything_witness :
  let a := mkSample 0 0 10 0 0 1%float 0.25%float false 0 in
  let b := setWeight PrimFloat.nan (mkSample 5 5 10 0 0 1%float 1%float true 1) in
  let c := mkSample 9 9 10 0 0 1%float 0.75%float true 2 in
  (equivalent a b = true /\ equivalent b c = true)
  /\ operator_lt a c = true /\ equivalent a c = false.
Proof.
  intros a b c.
  assert (Hn : Double.eq (weight b) (weight b) = false)
    by (vm_compute; reflexivity).
  destruct (nan_weight_ties_with_everything a b Hn) as (_ & _ & _ & _ & E1 & _).
  destruct (nan_weight_ties_with_everything c b Hn) as (_ & _ & _ & _ & _ & E2).
  split; [split; [exact E1 | exact E2]|].
  vm_compute. split; reflexivity.
Defined.

(** ** The store of a client and the id counter *)

Lemma exec_New (k : ctor) (st : Statics) (h : store) :
  exec (New k) (st, h) = (snd (construct k st), h ++ [fst (construct k st)]).
Proof. simpl. destruct (construct k st); reflexivity. Qed.

Lemma add_one_below_max (n : Z) :
  Int32.in_range n -> n < Int32.INT_MAX -> Int32.add n 1 = n + 1.
Proof.
  intros Hr Hlt. unfold Int32.add. apply wrap_in_range.
  unfold Int32.in_range, Int32.INT_MIN, Int32.INT_MAX in *. lia.
Qed.

Lemma length_update (i : nat) (o : Sample) (h : store) :
  length (update i o h) = length h.
Proof.
  revert i. induction h as [|a t IH]; intros [|i]; simpl; auto.
Qed.

Lemma nth_error_update_eq (i : nat) (o : Sample) (h : store) :
  (i < length h)%nat -> nth_error (update i o h) i = Some o.
Proof.
  revert i. induction h as [|a t IH]; intros [|i] Hi; simpl in *;
    try lia; [reflexivity | apply IH; lia].
Qed.

Lemma nth_error_update_neq (i k : nat) (o : Sample) (h : store) :
  k <> i -> nth_error (update i o h) k = nth_error h k.
Proof.
  revert i k. induction h as [|a t IH]; intros [|i] [|k] Hk; simpl;
    try reflexivity; try congruence.
  apply IH. congruence.
Qed.

Lemma Forall_update (P : Sample -> Prop) (i : nat) (o : Sample) (h : store) :
  Forall P h -> P o -> Forall P (update i o h).
Proof.
  intros Hh Ho. revert i. induction Hh as [|a t Ha Ht IH]; intros [|i]; simpl;
    constructor; auto.
Qed.

(** X7: a population built by [n] constructor calls in a row gets the
    consecutive ids [nextClusterId, nextClusterId + 1, ...] in creation order,
    and the counter ends [n] higher, as long as it does not pass [INT_MAX]. *)
Theorem fresh_population_ids_consecutive :
  forall (cs : list ctor) (st : Statics) (h : store),
    Int32.in_range (nextClusterId st) ->
    nextClusterId st + Z.of_nat (length cs) <= Int32.INT_MAX ->
    let cfg := run (map New cs) (st, h) in
    map clusterId (snd cfg)
      = map clusterId h
        ++ map (fun k => nextClusterId st + Z.of_nat k) (seq 0 (length cs))
    /\ nextClusterId (fst cfg) = nextClusterId st + Z.of_nat (length cs)
    /\ aspectRatio (fst cfg) = aspectRatio st.
Proof.
  induction cs as [|c cs IH]; intros st h Hr Hb.
  - simpl. rewrite app_nil_r, Z.add_0_r. auto.
  - cbn zeta.
    change (run (map New (c :: cs)) (st, h))
      with (run (map New cs) (exec (New c) (st, h))).
    rewrite exec_New.
    pose proof (construct_statics c st) as Es.
    pose proof (construct_clusterId c st) as Ei.
    destruct (construct c st) as [s st']. cbn [fst snd] in *.
    assert (En : nextClusterId st' = nextClusterId st + 1).
    { rewrite Es. cbn [nextClusterId]. apply add_one_below_max; [exact Hr|].
      simpl length in Hb. lia. }
    assert (Hr' : Int32.in_range (nextClusterId st')).
    { rewrite Es. cbn [nextClusterId]. apply wrap_range. }
    assert (Hb' : nextClusterId st' + Z.of_nat (length cs) <= Int32.INT_MAX).
    { rewrite En. simpl length in Hb. lia. }
    destruct (IH st' (h ++ [s]) Hr' Hb') as (Hids & Hcnt & Hrat).
    split; [|split].
    + eapply eq_trans; [exact Hids|]. rewrite map_app, <- app_assoc. f_equal.
      simpl. rewrite Ei, Z.add_0_r. f_equal.
      rewrite <- seq_shift, map_map. apply map_ext. intros k.
      rewrite En. lia.
    + eapply eq_trans; [exact Hcnt|]. rewrite En. simpl length. lia.
    + eapply eq_trans; [exact Hrat|]. rewrite Es. reflexivity.
Qed.

Lemma fresh_population_ids_consecutive_witness :
  let st := mkStatics 1%float 40 in
  let cfg := run (map New [Ctor_default; Ctor_xys 3 4 5; Ctor_default]) (st, []) in
  map clusterId (snd cfg) = [40; 41; 42] /\ nextClusterId (fst cfg) = 43.
Proof.
  intros st cfg.
  assert (Hr : Int32.in_range (nextClusterId st))
    by (vm_compute; split; discriminate).
  assert (Hb : nextClusterId st
               + Z.of_nat (length [Ctor_default; Ctor_xys 3 4 5; Ctor_default])
               <= Int32.INT_MAX) by (vm_compute; discriminate).
  pose proof (fresh_population_ids_consecutive _ st [] Hr Hb) as H.
  cbv zeta in H. destruct H as (Hids & Hcnt & _).
  split; [exact Hids | exact Hcnt].
Defined.

(** One statement keeps every id in the store below the counter. *)
Lemma exec_ids_below_counter (c : stmt) (st : Statics) (h : store) :
  Int32.in_range (nextClusterId st) ->
  match c with New _ => nextClusterId st < Int32.INT_MAX | _ => True end ->
  Forall (fun s => clusterId s < nextClusterId st) h ->
  Forall (fun s => clusterId s < nextClusterId (fst (exec c (st, h))))
         (snd (exec c (st, h))).
Proof.
  intros Hr Hc Hh.
  destruct c as [k|i|i j|i m|r|w hg].
  - rewrite exec_New. cbn [fst snd].
    rewrite construct_statics. cbn [nextClusterId].
    rewrite (add_one_below_max _ Hr Hc).
    apply Forall_app. split.
    + eapply Forall_impl; [|exact Hh]. simpl. intros; lia.
    + constructor; [|constructor]. rewrite construct_clusterId. lia.
  - simpl. destruct (nth_error h i) as [o|] eqn:E; simpl; [|exact Hh].
    apply Forall_app. split; [exact Hh|]. constructor; [|constructor].
    apply (proj1 (Forall_forall _ h) Hh o). eapply nth_error_In; eauto.
  - simpl. destruct (nth_error h j) as [o|] eqn:E; simpl; [|exact Hh].
    apply Forall_update; [exact Hh|].
    apply (proj1 (Forall_forall _ h) Hh o). eapply nth_error_In; eauto.
  - simpl. destruct (nth_error h i) as [o|] eqn:E; simpl; [|exact Hh].
    apply Forall_update; [exact Hh|]. rewrite mutate_clusterId.
    apply (proj1 (Forall_forall _ h) Hh o). eapply nth_error_In; eauto.
  - exact Hh.
  - exact Hh.
Qed.

(** X8: [nextClusterId] stays "the next cluster ID that was not assigned to
    any sample before": if every sample in the store has an id below the
    counter, then after any client program (constructions, copies,
    assignments, setter calls, aspect-ratio changes) every sample in the store
    still has an id below the counter, as long as the counter does not pass
    [INT_MAX]. *)
Theorem store_ids_below_counter :
  forall (p : list stmt) (st : Statics) (h : store),
    Int32.in_range (nextClusterId st) ->
    nextClusterId st + Z.of_nat (count_new p) <= Int32.INT_MAX ->
    Forall (fun s => clusterId s < nextClusterId st) h ->
    let cfg := run p (st, h) in
    Forall (fun s => clusterId s < nextClusterId (fst cfg)) (snd cfg)
    /\ nextClusterId (fst cfg) = nextClusterId st + Z.of_nat (count_new p).
Proof.
  induction p as [|c p IH]; intros st h Hr Hb Hh.
  - simpl. rewrite Z.add_0_r. auto.
  - cbn zeta. change (run (c :: p) (st, h)) with (run p (exec c (st, h))).
    rewrite count_new_cons in *.
    assert (Hc : match c with
                 | New _ => nextClusterId st < Int32.INT_MAX
                 | _ => True
                 end) by (destruct c; trivial; lia).
    pose proof (exec_ids_below_counter c st h Hr Hc Hh) as Hstep.
    pose proof (exec_nextClusterId c st h) as En.
    destruct (exec c (st, h)) as [st1 h1]. cbn [fst snd] in *.
    assert (En' : nextClusterId st1
                  = match c with
                    | New _ => nextClusterId st + 1
                    | _ => nextClusterId st
                    end).
    { rewrite En. destruct c; try reflexivity.
      apply add_one_below_max; assumption. }
    assert (Hr1 : Int32.in_range (nextClusterId st1)).
    { rewrite En. destruct c; try assumption. apply wrap_range. }
    assert (Hb1 : nextClusterId st1 + Z.of_nat (count_new p) <= Int32.INT_MAX).
    { rewrite En'. destruct c; lia. }
    destruct (IH st1 h1 Hr1 Hb1 Hstep) as [HF Hn].
    split; [exact HF|]. rewrite Hn, En'. destruct c; lia.
Qed.

Lemma store_ids_below_counter_witness :
  let st := mkStatics 1%float 3 in
  let h := [mkSample 0 0 10 0 0 1%float 1%float false 2] in
  let cfg := run [New Ctor_default; CopyNew 0; Assign 1 0;
                  Call 2 (SetX 5); New (Ctor_xys 1 1 1)] (st, h) in
  Forall (fun s => clusterId s < nextClusterId (fst cfg)) (snd cfg)
  /\ nextClusterId (fst cfg) = 5.
Proof.
  intros st h cfg.
  assert (Hr : Int32.in_range (nextClusterId st))
    by (vm_compute; split; discriminate).
  assert (Hb : nextClusterId st
               + Z.of_nat (count_new [New Ctor_default; CopyNew 0; Assign 1 0;
                                      Call 2 (SetX 5); New (Ctor_xys 1 1 1)])
               <= Int32.INT_MAX) by (vm_compute; discriminate).
  assert (Hh : Forall (fun s => clusterId s < nextClusterId st) h)
    by (constructor; [vm_compute; reflexivity | constructor]).
  exact (store_ids_below_counter _ st h Hr Hb Hh).
Defined.

(** X9: copy assignment [s_i = s_j] makes object [i] member-wise equal to
    object [j], its [clusterId] included (the member is not [const]); it
    draws no id, changes no static, and leaves every other object alone. *)
Theorem assignment_overwrites_identity :
  forall (st : Statics) (h : store) (i j : nat) (o : Sample),
    nth_error h j = Some o ->
    (i < length h)%nat ->
    let cfg := exec (Assign i j) (st, h) in
    fst cfg = st
    /\ nth_error (snd cfg) i = Some o
    /\ option_map getClusterId (nth_error (snd cfg) i) = Some (getClusterId o)
    /\ length (snd cfg) = length h
    /\ (forall k : nat, k <> i -> nth_error (snd cfg) k = nth_error h k).
Proof.
  intros st h i j o Hj Hi cfg. subst cfg. simpl. rewrite Hj. cbn [fst snd].
  rewrite (nth_error_update_eq i o h Hi).
  split; [reflexivity|]. split; [reflexivity|]. split; [reflexivity|].
  split; [apply length_update|].
  intros k Hk. apply nth_error_update_neq, Hk.
Qed.

Lemma assignment_overwrites_identity_witness :
  let st := mkStatics 1%float 2 in
  let h := [mkSample 0 0 10 0 0 1%float 1%float false 0;
            mkSample 7 7 20 0 0 1%float 0.5%float true 1] in
  option_map getClusterId (nth_error (snd (exec (Assign 0 1) (st, h))) 0)
    = Some 1.
Proof.
  intros st h.
  assert (Hj : nth_error h 1 = Some (mkSample 7 7 20 0 0 1%float 0.5%float true 1))
    by reflexivity.
  assert (Hi : (0 < length h)%nat) by (vm_compute; constructor; constructor).
  pose proof (assignment_overwrites_identity st h 0%nat 1%nat _ Hj Hi) as H.
  cbv zeta in H. destruct H as (_ & _ & H & _). exact H.
Defined.

Lemma exec_aspectRatio (c : stmt) (st : Statics) (h : store) :
  aspectRatio (fst (exec c (st, h)))
  = ratio_after [c] (aspectRatio st).
Proof.
  destruct c as [k|i|i j|i m|r|w hg]; simpl.
  - pose proof (construct_statics k st) as E.
    destruct (construct k st) as [s st']. simpl in *. now rewrite E.
  - destruct (nth_error h i); reflexivity.
  - destruct (nth_error h j); reflexivity.
  - destruct (nth_error h i); reflexivity.
  - reflexivity.
  - reflexivity.
Qed.

(** X10: after any client program the aspect ratio is the one its last static
    setter stored ([r] for [setAspectRatio(r)], [height / width] for
    [setAspectRatio(width, height)]), or the initial one if the program has
    none: constructing, copying, assigning and mutating samples never change
    it, and every sample's height is computed from it. *)
Theorem aspectRatio_last_write_wins :
  forall (p : list stmt) (st : Statics) (h : store),
    aspectRatio (fst (run p (st, h))) = ratio_after p (aspectRatio st)
    /\ (forall (cvRound : double -> Z) (s : Sample),
          getHeight cvRound (fst (run p (st, h))) s
          = cvRound (PrimFloat.mul (ratio_after p (aspectRatio st))
                       (of_int (size s)))).
Proof.
  assert (H : forall p st h,
             aspectRatio (fst (run p (st, h))) = ratio_after p (aspectRatio st)).
  { induction p as [|c p IH]; intros st h; [reflexivity|].
    change (run (c :: p) (st, h)) with (run p (exec c (st, h))).
    pose proof (exec_aspectRatio c st h) as E.
    destruct (exec c (st, h)) as [st1 h1]. cbn [fst] in E.
    rewrite IH, E. reflexivity. }
  intros p st h. split; [apply H|].
  intros cvRound s. unfold getHeight. rewrite H. reflexivity.
Qed.

(** ** The two entry points of the grayscale filter *)

Lemma cvtColor_8u_raises (m : Mat) :
  cvtColor_8u m = None <-> channels m <> 3 /\ channels m <> 4.
Proof.
  unfold cvtColor_8u.
  destruct (Z.eqb_spec (channels m) 3) as [E3|N3].
  - split; [discriminate | intros [H _]; contradiction].
  - destruct (Z.eqb_spec (channels m) 4) as [E4|N4].
    + split; [discriminate | intros [_ H]; contradiction].
    + split; auto.
Qed.

Lemma grayscale_raises_iff_aux (cvt : Mat -> option Mat) (image filtered : Mat) :
  (applyInPlace cvt image = None <-> 1 < channels image /\ cvt image = None)
  /\ (applyTo cvt image filtered = None
      <-> 1 < channels image /\ cvt image = None).
Proof.
  unfold applyInPlace, applyTo, copyTo.
  destruct (Z.ltb_spec 1 (channels image)) as [Hc|Hc].
  - destruct (cvt image) as [g|];
      split; (split; [try discriminate; auto | intros [_ H]; auto; discriminate H]).
  - split; (split; [discriminate | intros [H _]; lia]).
Qed.

(** X11: [applyTo] and [applyInPlace] compute the same image and fail on the
    same inputs; what [applyTo] returns is what it leaves in [filtered], and
    neither depends on what [filtered] held before the call. *)
Theorem applyTo_applyInPlace_agree :
  forall (cvtColor_BGR2GRAY : Mat -> option Mat) (image filtered filtered' : Mat),
    applyInPlace cvtColor_BGR2GRAY image
      = option_map fst (applyTo cvtColor_BGR2GRAY image filtered)
    /\ option_map snd (applyTo cvtColor_BGR2GRAY image filtered)
       = option_map fst (applyTo cvtColor_BGR2GRAY image filtered)
    /\ applyTo cvtColor_BGR2GRAY image filtered
       = applyTo cvtColor_BGR2GRAY image filtered'.
Proof.
  intros cvt image filtered filtered'. unfold applyInPlace, applyTo, copyTo.
  destruct (1 <? channels image); [destruct (cvt image)|];
    repeat split; reflexivity.
Qed.

(** X12: the filter raises exactly when the image has more than one channel
    and the conversion raises; an image of at most one channel is never handed
    to the conversion and comes back as it is. *)
Theorem grayscale_raises_iff :
  forall (cvtColor_BGR2GRAY : Mat -> option Mat) (image : Mat),
    (applyInPlace cvtColor_BGR2GRAY image = None
     <-> 1 < channels image /\ cvtColor_BGR2GRAY image = None)
    /\ (forall filtered : Mat,
          applyTo cvtColor_BGR2GRAY image filtered = None
          <-> 1 < channels image /\ cvtColor_BGR2GRAY image = None)
    /\ (channels image <= 1 ->
        applyInPlace cvtColor_BGR2GRAY image = Some image
        /\ forall filtered : Mat,
             applyTo cvtColor_BGR2GRAY image filtered = Some (image, image)).
Proof.
  intros cvt image.
  split; [apply (grayscale_raises_iff_aux cvt image image)|].
  split; [intros f; apply (grayscale_raises_iff_aux cvt image f)|].
  intros Hc. unfold applyInPlace, applyTo, copyTo.
  destruct (Z.ltb_spec 1 (channels image)) as [Hc'|Hc']; [lia|].
  split; reflexivity.
Qed.

Lemma grayscale_raises_iff_witness :
  let two := mkMat 1 1 2 [5; 6] in
  let one := mkMat 1 2 1 [5; 6] in
  applyInPlace cvtColor_8u two = None
  /\ applyInPlace cvtColor_8u one = Some one.
Proof.
  intros two one.
  destruct (grayscale_raises_iff cvtColor_8u two) as ([_ Hr] & _ & _).
  destruct (grayscale_raises_iff cvtColor_8u one) as (_ & _ & Hs).
  split.
  - apply Hr. split; [vm_compute; reflexivity | reflexivity].
  - apply Hs. vm_compute. discriminate.
Defined.

(** X13: when the conversion raises exactly on sources that have neither
    three nor four channels (OpenCV's precondition for BGR-to-gray), both
    entry points raise exactly on images with two or with more than four
    channels, and return on every other image. *)
Theorem grayscale_raises_on_two_or_many_channels :
  forall (cvtColor_BGR2GRAY : Mat -> option Mat),
    (forall m : Mat,
        cvtColor_BGR2GRAY m = None <-> channels m <> 3 /\ channels m <> 4) ->
    forall image filtered : Mat,
      (applyInPlace cvtColor_BGR2GRAY image = None
       <-> channels image = 2 \/ 4 < channels image)
      /\ (applyTo cvtColor_BGR2GRAY image filtered = None
          <-> channels image = 2 \/ 4 < channels image).
Proof.
  intros cvt Hpre image filtered.
  destruct (grayscale_raises_iff_aux cvt image filtered) as [H1 H2].
  rewrite H1, H2, Hpre. split; lia.
Qed.

Lemma grayscale_raises_on_two_or_many_channels_witness :
  let two := mkMat 1 1 2 [5; 6] in
  let bgr := mkMat 1 1 3 [10; 20; 30] in
  applyInPlace cvtColor_8u two = None
  /\ applyTo cvtColor_8u two bgr = None.
Proof.
  intros two bgr.
  destruct (grayscale_raises_on_two_or_many_channels cvtColor_8u
              cvtColor_8u_raises two bgr) as [[_ H1] [_ H2]].
  split; [apply H1 | apply H2]; left; reflexivity.
Defined.

(** ** The shape of the logistic output *)

Lemma logistic_decreasing (s t : R) :
  (s < t -> 1 / (1 + exp t) < 1 / (1 + exp s))%R.
Proof.
  intros Hst. pose proof (exp_increasing _ _ Hst) as He.
  pose proof (exp_pos s) as Hs. pose proof (exp_pos t) as Ht.
  unfold Rdiv. rewrite !Rmult_1_l.
  apply Rinv_lt_contravar; [|lra].
  apply Rmult_lt_0_compat; lra.
Qed.

Lemma logistic_zero : (1 / (1 + exp 0) = 1 / 2)%R.
Proof. rewrite exp_0. lra. Qed.

(** X14: with [logisticB < 0] (as the default -2.95) the probability grows
    strictly with the hyperplane distance; with [logisticB > 0] it falls
    strictly; with [logisticB = 0] it does not depend on the distance. *)
Theorem probability_monotone :
  forall (svm_classify : R -> bool)
         (c : classification.ProbabilisticSvmClassifier) (d1 d2 : R),
    (d1 < d2)%R ->
    ((classification.logisticB c < 0)%R ->
     (snd (classification.getProbability svm_classify c d1)
      < snd (classification.getProbability svm_classify c d2))%R)
    /\ ((0 < classification.logisticB c)%R ->
        (snd (classification.getProbability svm_classify c d2)
         < snd (classification.getProbability svm_classify c d1))%R)
    /\ (classification.logisticB c = 0%R ->
        snd (classification.getProbability svm_classify c d1)
        = snd (classification.getProbability svm_classify c d2)).
Proof.
  intros svm c d1 d2 Hd. unfold classification.getProbability. cbn [snd].
  split; [|split]; intros Hb.
  - apply logistic_decreasing. nra.
  - apply logistic_decreasing. nra.
  - rewrite Hb, !Rmult_0_l. reflexivity.
Qed.

Lemma probability_monotone_witness :
  (snd (classification.getProbability (fun _ => true)
          classification.default_parameters 0)
   < snd (classification.getProbability (fun _ => true)
            classification.default_parameters 1))%R.
Proof.
  assert (Hd : (0 < 1)%R) by lra.
  destruct (probability_monotone (fun _ => true)
              classification.default_parameters 0 1 Hd) as [H _].
  apply H. simpl. lra.
Defined.

(** X15: the probability is above one half exactly when [a + b * x] is
    negative, one half when it is zero and below one half when it is positive;
    so with the default parameters a feature vector on the hyperplane
    (distance 0) gets a probability below one half. *)
Theorem probability_half :
  forall (svm_classify : R -> bool)
         (c : classification.ProbabilisticSvmClassifier) (d : R),
    let t := (classification.logisticA c + classification.logisticB c * d)%R in
    let p := snd (classification.getProbability svm_classify c d) in
    ((t < 0)%R -> (1 / 2 < p)%R)
    /\ (t = 0%R -> p = (1 / 2)%R)
    /\ ((0 < t)%R -> (p < 1 / 2)%R)
    /\ ((1 / 2 < p)%R -> (t < 0)%R).
Proof.
  intros svm c d t p. subst p. unfold classification.getProbability.
  cbn [snd]. fold t.
  assert (Hneg : (t < 0 -> 1 / 2 < 1 / (1 + exp t))%R).
  { intros Ht. rewrite <- logistic_zero. now apply logistic_decreasing. }
  assert (Hzero : t = 0%R -> (1 / (1 + exp t))%R = (1 / 2)%R).
  { intros ->. apply logistic_zero. }
  assert (Hpos : (0 < t -> 1 / (1 + exp t) < 1 / 2)%R).
  { intros Ht. rewrite <- logistic_zero. now apply logistic_decreasing. }
  repeat split; try assumption.
  intros Hp. destruct (Rtotal_order t 0) as [Hlt|[Heq|Hgt]]; [exact Hlt| |].
  - rewrite (Hzero Heq) in Hp. lra.
  - pose proof (Hpos Hgt). lra.
Qed.

Lemma probability_half_witness :
  (snd (classification.getProbability (fun _ => true)
          classification.default_parameters 0) < 1 / 2)%R.
Proof.
  destruct (probability_half (fun _ => true)
              classification.default_parameters 0) as (_ & _ & H & _).
  apply H. simpl. lra.
Defined.
